(** * Spectral comparison of graph pairs (isomorfismo.ipynb)

    A shallow embedding of the numerical core of the notebook:
    [to_adj], [sorted_eigvals], [laplacian], [normalized_laplacian],
    [signless_laplacian] and [compare_pair], together with the NumPy
    operations they are written with ([sum(axis=1)], [np.diag], broadcasting
    [+]/[-], [@], [np.isinf] masking, [np.sort], [np.allclose]).

    Numbers.  A float64 is idealised: a finite value is an exact real and
    finite arithmetic neither rounds nor overflows, while the IEEE special
    values that NumPy produces from [1/0], [0/0] or the square root of a
    negative number are kept ([PosInf], [NegInf], [NaN]).  Signed zeros are
    not distinguished.

    Collaborators.  The LAPACK eigenvalue kernel behind
    [np.linalg.eigvals] and the networkx line-graph construction are not
    part of the notebook; they are parameters of the development. *)

From Stdlib Require Import String Ascii.
From Stdlib Require Import Reals Lra Lia Bool Arith PeanoNat.
From Stdlib Require Import List Sorted Permutation.
Import ListNotations.

Set Implicit Arguments.

Local Open Scope R_scope.

(* ================================================================== *)
(** * Python exceptions and the result of a call *)

Inductive exn : Type :=
| ValueError     (* NumPy: operands could not be broadcast / matmul mismatch *)
| LinAlgError    (* numpy.linalg: not square, not finite, no convergence *)
| NetworkXError. (* raised by the graph collaborator *)

Inductive result (A : Type) : Type :=
| Ok (a : A)
| Raise (e : exn).

Arguments Ok {A} a.
Arguments Raise {A} e.

Definition bind {A B : Type} (c : result A) (k : A -> result B) : result B :=
  match c with
  | Ok a => k a
  | Raise e => Raise e
  end.

Notation "x <- c ;; k" := (bind c (fun x => k))
  (at level 61, c at next level, right associativity).

Definition raises {A : Type} (c : result A) : Prop :=
  exists e, c = Raise e.

(* ================================================================== *)
(** * Idealised float64 scalars *)

Inductive np_float : Type :=
| Finite (x : R)
| PosInf
| NegInf
| NaN.

(** The infinity produced when a non-zero finite [x] is divided by zero or
    multiplied by [inf]; [0/0] and [0*inf] are [nan]. *)
Definition inf_of_sign (x : R) : np_float :=
  if Req_dec_T x 0 then NaN
  else if Rlt_dec 0 x then PosInf else NegInf.

Definition fadd (a b : np_float) : np_float :=
  match a, b with
  | Finite x, Finite y => Finite (x + y)
  | NaN, _ | _, NaN => NaN
  | PosInf, NegInf | NegInf, PosInf => NaN
  | PosInf, _ | _, PosInf => PosInf
  | NegInf, _ | _, NegInf => NegInf
  end.

Definition fsub (a b : np_float) : np_float :=
  match a, b with
  | Finite x, Finite y => Finite (x - y)
  | NaN, _ | _, NaN => NaN
  | PosInf, PosInf | NegInf, NegInf => NaN
  | PosInf, _ | _, NegInf => PosInf
  | NegInf, _ | _, PosInf => NegInf
  end.

Definition fmul (a b : np_float) : np_float :=
  match a, b with
  | Finite x, Finite y => Finite (x * y)
  | NaN, _ | _, NaN => NaN
  | Finite x, PosInf | PosInf, Finite x => inf_of_sign x
  | Finite x, NegInf | NegInf, Finite x => inf_of_sign (- x)
  | PosInf, PosInf | NegInf, NegInf => PosInf
  | PosInf, NegInf | NegInf, PosInf => NegInf
  end.

Definition fdiv (a b : np_float) : np_float :=
  match a, b with
  | Finite x, Finite y =>
      if Req_dec_T y 0 then inf_of_sign x else Finite (x / y)
  | NaN, _ | _, NaN => NaN
  | Finite _, PosInf | Finite _, NegInf => Finite 0
  | PosInf, Finite y => if Rlt_dec y 0 then NegInf else PosInf
  | NegInf, Finite y => if Rlt_dec y 0 then PosInf else NegInf
  | _, _ => NaN
  end.

Definition fsqrt (a : np_float) : np_float :=
  match a with
  | Finite x => if Rlt_dec x 0 then NaN else Finite (sqrt x)
  | PosInf => PosInf
  | NegInf | NaN => NaN
  end.

Definition isinf (a : np_float) : bool :=
  match a with
  | PosInf | NegInf => true
  | Finite _ | NaN => false
  end.

Definition isfinite (a : np_float) : bool :=
  match a with
  | Finite _ => true
  | _ => false
  end.

(** The real number held by a finite value. *)
Definition real_of (a : np_float) : R :=
  match a with
  | Finite x => x
  | _ => 0
  end.

(* ================================================================== *)
(** * Two-dimensional arrays *)

Definition vector : Type := list np_float.

(** A 2-D ndarray is the list of its rows.  NumPy arrays are rectangular;
    [rectangular] records that invariant.  The empty list is the 0x0
    array. *)
Definition matrix : Type := list vector.

Definition nrows (A : matrix) : nat := length A.

Definition ncols (A : matrix) : nat :=
  match A with
  | [] => 0%nat
  | r :: _ => length r
  end.

Definition shape (A : matrix) : nat * nat := (nrows A, ncols A).

Definition rectangular (A : matrix) : Prop :=
  Forall (fun r => length r = ncols A) A.

Definition item (A : matrix) (i j : nat) : np_float :=
  nth j (nth i A []) (Finite 0).

(** The [m] x [n] array whose entry [(i, j)] is [f i j]. *)
Definition build (m n : nat) (f : nat -> nat -> np_float) : matrix :=
  map (fun i => map (fun j => f i j) (seq 0 n)) (seq 0 m).

(** [v.sum()] of a 1-D array: accumulation from the additive identity. *)
Definition fsum (v : vector) : np_float :=
  fold_left fadd v (Finite 0).

(** [A.sum(axis=1)]: the vector of row sums. *)
Definition sum_axis1 (A : matrix) : vector :=
  map fsum A.

(** [np.diag(v)] for a 1-D [v]. *)
Definition np_diag (v : vector) : matrix :=
  build (length v) (length v)
        (fun i j => if (i =? j)%nat then nth i v (Finite 0) else Finite 0).

(** Broadcasting of one axis: equal extents, or one of them is 1. *)
Definition broadcast_dim (a b : nat) : option nat :=
  if (a =? b)%nat then Some a
  else if (a =? 1)%nat then Some b
  else if (b =? 1)%nat then Some a
  else None.

(** Entry [(i, j)] of [A] seen through broadcasting: an axis of extent 1
    is read at index 0 whatever the requested index. *)
Definition bitem (A : matrix) (i j : nat) : np_float :=
  item A (if (nrows A =? 1)%nat then 0%nat else i)
         (if (ncols A =? 1)%nat then 0%nat else j).

(** An element-wise binary ufunc on two 2-D arrays. *)
Definition elementwise (f : np_float -> np_float -> np_float)
           (A B : matrix) : result matrix :=
  match broadcast_dim (nrows A) (nrows B),
        broadcast_dim (ncols A) (ncols B) with
  | Some m, Some n => Ok (build m n (fun i j => f (bitem A i j) (bitem B i j)))
  | _, _ => Raise ValueError
  end.

Definition np_sub : matrix -> matrix -> result matrix := elementwise fsub.
Definition np_add : matrix -> matrix -> result matrix := elementwise fadd.

(** [A @ B] for 2-D arrays. *)
Definition matmul (A B : matrix) : result matrix :=
  if (ncols A =? nrows B)%nat then
    Ok (build (nrows A) (ncols B)
              (fun i j =>
                 fsum (map (fun k => fmul (item A i k) (item B k j))
                           (seq 0 (ncols A)))))
  else Raise ValueError.

(** [1 / np.sqrt(v)] under [np.errstate(divide="ignore")]. *)
Definition inv_sqrt (v : vector) : vector :=
  map (fun d => fdiv (Finite 1) (fsqrt d)) v.

(** [M[np.isinf(M)] = 0]. *)
Definition zero_where_isinf (M : matrix) : matrix :=
  map (map (fun x => if isinf x then Finite 0 else x)) M.

(* ================================================================== *)
(** * The notebook's matrix derivations *)

(** [to_adj]: an ndarray argument is returned as it is ([np.asarray]); the
    branch for networkx graph objects belongs to the graph collaborator. *)
Definition to_adj (M : matrix) : matrix := M.

Definition laplacian (A : matrix) : result matrix :=
  let A := to_adj A in
  let D := np_diag (sum_axis1 A) in
  np_sub D A.

Definition normalized_laplacian (A : matrix) : result matrix :=
  let A := to_adj A in
  let D := np_diag (sum_axis1 A) in
  let D_inv_sqrt := np_diag (inv_sqrt (sum_axis1 A)) in
  let D_inv_sqrt := zero_where_isinf D_inv_sqrt in
  L <- laplacian A ;;
  X <- matmul D_inv_sqrt L ;;
  matmul X D_inv_sqrt.

Definition signless_laplacian (A : matrix) : result matrix :=
  let A := to_adj A in
  let D := np_diag (sum_axis1 A) in
  np_add D A.

(* ================================================================== *)
(** * Spectra *)

(** A complex128 eigenvalue. *)
Record complex : Type := Complex { re : R; im : R }.

(** A spectrum is a 1-D array of finite reals: [np.linalg.eigvals] refuses
    arrays with [inf] or [nan] and returns finite values. *)
Definition spectrum : Type := list R.

(** [np.sort] of a 1-D array (ascending). *)
Fixpoint insert (x : R) (l : list R) : list R :=
  match l with
  | [] => [x]
  | y :: t => if Rle_dec x y then x :: y :: t else y :: insert x t
  end.

Definition np_sort (l : list R) : list R :=
  fold_right insert [] l.

Definition all_finite (A : matrix) : bool :=
  forallb (forallb isfinite) A.

(** [np.allclose] with its default tolerances. *)
Definition rtol : R := 1e-5.
Definition atol : R := 1e-8.

Definition within_tol (a b : R) : bool :=
  if Rle_dec (Rabs (a - b)) (atol + rtol * Rabs b) then true else false.

(** Element [i] of a 1-D array seen through broadcasting. *)
Definition bnth (s : spectrum) (i : nat) : R :=
  nth (if (length s =? 1)%nat then 0%nat else i) s 0.

Definition isclose (s1 s2 : spectrum) : result (list bool) :=
  match broadcast_dim (length s1) (length s2) with
  | Some n => Ok (map (fun i => within_tol (bnth s1 i) (bnth s2 i)) (seq 0 n))
  | None => Raise ValueError
  end.

Definition allclose (s1 s2 : spectrum) : result bool :=
  c <- isclose s1 s2 ;; Ok (forallb (fun b => b) c).

(* ================================================================== *)
(** * Text output *)

Local Open Scope string_scope.

(** Python counts code points; a UTF-8 continuation byte is [10xxxxxx]. *)
Definition is_continuation (c : ascii) : bool :=
  match c with
  | Ascii _ _ _ _ _ _ b6 b7 => b7 && negb b6
  end.

Fixpoint py_len (s : string) : nat :=
  match s with
  | EmptyString => 0
  | String c s' => (if is_continuation c then 0 else 1) + py_len s'
  end.

Fixpoint spaces (n : nat) : string :=
  match n with
  | O => ""
  | S k => String " " (spaces k)
  end.

(** The format specification [{s:15}]: left-justified in 15 columns. *)
Definition ljust15 (s : string) : string :=
  s ++ spaces (15 - py_len s).

(** One [print] call of the report loop. *)
Definition verdict_line (mat_name : string) (close : bool) : string :=
  ljust15 mat_name ++ ": " ++ (if close then "cospettrali" else "diversi").

(** [print(f"\n{name}")]. *)
Definition header_line (name : string) : string :=
  String (ascii_of_nat 10) name.

(** The representations of the report, and their keys in [specs]. *)
Inductive representation : Type :=
| Adjacency
| Laplacian
| NormalizedLaplacian
| SignlessLaplacian
| LineGraphAdjacency.

Definition mat_name (r : representation) : string :=
  match r with
  | Adjacency => "Adjacency A"
  | Laplacian => "Laplacian L"
  | NormalizedLaplacian => "Normalized L"
  | SignlessLaplacian => "Signless |L|"
  | LineGraphAdjacency => "Line‑graph A"
  end.

Definition all_representations : list representation :=
  [Adjacency; Laplacian; NormalizedLaplacian; SignlessLaplacian;
   LineGraphAdjacency].

Local Close Scope string_scope.

(** What a run writes to standard output (one string per [print]) and how
    it ends. *)
Definition run : Type := (list string * result unit)%type.

(** The loop [for mat_name, (s1, s2) in specs.items(): print(...)]. *)
Fixpoint report (specs : list (string * (spectrum * spectrum))) : run :=
  match specs with
  | [] => ([], Ok tt)
  | (key, (s1, s2)) :: rest =>
      match allclose s1 s2 with
      | Ok close =>
          let (out, r) := report rest in (verdict_line key close :: out, r)
      | Raise e => ([], Raise e)
      end
  end.

(* ================================================================== *)
(** * Spectrum computation and the pair report *)

Section Collaborators.

(** The LAPACK kernel called by [np.linalg.eigvals] once the argument has
    passed NumPy's own checks. *)
Variable geev : matrix -> result (list complex).

(** [nx.to_numpy_array(nx.line_graph(nx.from_numpy_array(A)))]. *)
Variable line_graph_array : matrix -> result matrix.

(** [np.linalg.eigvals]: the argument must be square and finite. *)
Definition np_linalg_eigvals (a : matrix) : result (list complex) :=
  if negb (nrows a =? ncols a)%nat then Raise LinAlgError
  else if negb (all_finite a) then Raise LinAlgError
  else geev a.

Definition sorted_eigvals (A : matrix) : result spectrum :=
  w <- np_linalg_eigvals (to_adj A) ;;
  Ok (np_sort (map re w)).

(** The dictionary literal [specs] of [compare_pair]: keys in insertion
    order, each value evaluated left to right. *)
Definition specs (A1m A2m : matrix)
  : result (list (string * (spectrum * spectrum))) :=
  a1 <- sorted_eigvals A1m ;;
  a2 <- sorted_eigvals A2m ;;
  L1 <- laplacian A1m ;;
  l1 <- sorted_eigvals L1 ;;
  L2 <- laplacian A2m ;;
  l2 <- sorted_eigvals L2 ;;
  N1 <- normalized_laplacian A1m ;;
  n1 <- sorted_eigvals N1 ;;
  N2 <- normalized_laplacian A2m ;;
  n2 <- sorted_eigvals N2 ;;
  Q1 <- signless_laplacian A1m ;;
  q1 <- sorted_eigvals Q1 ;;
  Q2 <- signless_laplacian A2m ;;
  q2 <- sorted_eigvals Q2 ;;
  G1 <- line_graph_array A1m ;;
  g1 <- sorted_eigvals G1 ;;
  G2 <- line_graph_array A2m ;;
  g2 <- sorted_eigvals G2 ;;
  Ok [ (mat_name Adjacency, (a1, a2));
       (mat_name Laplacian, (l1, l2));
       (mat_name NormalizedLaplacian, (n1, n2));
       (mat_name SignlessLaplacian, (q1, q2));
       (mat_name LineGraphAdjacency, (g1, g2)) ].

Definition compare_pair (A1 A2 : matrix) (name : string) : run :=
  let A1m := to_adj A1 in
  let A2m := to_adj A2 in
  match specs A1m A2m with
  | Raise e => ([], Raise e)
  | Ok sp =>
      let (out, r) := report sp in (header_line name :: out, r)
  end.

End Collaborators.

(** Stand-ins for the collaborators on the matrices used in the examples
    below.  The eigenvalues of a triangular matrix are its diagonal
    entries; the line graph of a graph without edges has no vertex. *)
Definition triangular_geev (a : matrix) : result (list complex) :=
  Ok (map (fun i => Complex (real_of (item a i i)) 0) (seq 0 (nrows a))).

Definition edgeless_line_graph (a : matrix) : result matrix :=
  Ok [].

(* ================================================================== *)
(** * Mathematical counterparts used in the statements *)

(** A matrix of real numbers, and the float64 array holding it. *)
Definition rmatrix : Type := list (list R).

Definition lift (A : rmatrix) : matrix := map (map Finite) A.

Definition ritem (A : rmatrix) (i j : nat) : R :=
  nth j (nth i A []) 0.

(** [A] has [m] rows of [n] entries each. *)
Definition is_shape {T : Type} (m n : nat) (A : list (list T)) : Prop :=
  length A = m /\ Forall (fun r => length r = n) A.

Definition rsum (l : list R) : R := fold_right Rplus 0 l.

(** [rowSums(A)_i], the degree of vertex [i]. *)
Definition degree (A : rmatrix) (i : nat) : R := rsum (nth i A []).

(** Entry [(i, j)] of [diag(d)]. *)
Definition diag_entry {T : Type} (zero : T) (d : nat -> T) (i j : nat) : T :=
  if (i =? j)%nat then d i else zero.

(** The spec's [diag(rowSums(A)) - A] and [diag(rowSums(A)) + A], entry by
    entry, for an [n] x [n] array. *)
Definition laplacian_spec (n : nat) (A : matrix) : matrix :=
  build n n (fun i j =>
               fsub (diag_entry (Finite 0) (fun k => fsum (nth k A [])) i j)
                    (item A i j)).

Definition signless_laplacian_spec (n : nat) (A : matrix) : matrix :=
  build n n (fun i j =>
               fadd (diag_entry (Finite 0) (fun k => fsum (nth k A [])) i j)
                    (item A i j)).

(** The spec's scaling factor: [1/sqrt(d_i)] if [d_i > 0], else [0]. *)
Definition scale (A : rmatrix) (i : nat) : R :=
  if Rlt_dec 0 (degree A i) then 1 / sqrt (degree A i) else 0.

(** Entry [(i, j)] of the real Laplacian [D - A]. *)
Definition rlaplacian (A : rmatrix) (i j : nat) : R :=
  diag_entry 0 (degree A) i j - ritem A i j.

(** The real [m] x [n] matrix whose entry [(i, j)] is [f i j]. *)
Definition rbuild (m n : nat) (f : nat -> nat -> R) : rmatrix :=
  map (fun i => map (fun j => f i j) (seq 0 n)) (seq 0 m).

(** The spec's [diag(s) @ laplacian(A) @ diag(s)], entry by entry. *)
Definition normalized_laplacian_spec (n : nat) (A : rmatrix) : rmatrix :=
  rbuild n n (fun i j => scale A i * rlaplacian A i j * scale A j).

Definition nonnegative (A : rmatrix) : Prop :=
  Forall (Forall (fun x => 0 <= x)) A.

(** The spec's tolerance test on one pair of elements. *)
Definition close_enough (a b : R) : Prop :=
  Rabs (a - b) <= atol + rtol * Rabs b.



(* ================================================================== *)
(** * Example inputs *)

(** The single edge K2. *)
Definition K2 : rmatrix := [[0; 1]; [1; 0]].



(** An upper-triangular matrix; its eigenvalues are 2 and -1. *)
Definition upper2 : rmatrix := [[2; 1]; [0; -1]].

(** Two one-element spectra on which the tolerance test depends on the
    order of the arguments. *)
Definition spectrum_low : spectrum := [100000].
Definition spectrum_high : spectrum := [100001.000005].

(** A 2 x 1 column and a 2 x 3 array. *)
Definition column_2x1 : matrix := [[Finite 1]; [Finite 2]].

Definition array_2x3 : matrix :=
  [[Finite 1; Finite 2; Finite 3]; [Finite 4; Finite 5; Finite 6]].

(** The adjacency matrix of the graph with [n] vertices and no edge. *)
Definition zeros (n : nat) : rmatrix := repeat (repeat 0 n) n.

(** The solver converges on every finite square array and returns as many
    eigenvalues as the array has rows. *)
Definition solver_total (geev : matrix -> result (list complex)) : Prop :=
  forall (k : nat) (M : matrix),
    is_shape k k M -> all_finite M = true ->
    exists w, geev M = Ok w /\ length w = k.

(** Whenever the solver returns, it returns as many eigenvalues as the
    array has rows. *)
Definition solver_sized (geev : matrix -> result (list complex)) : Prop :=
  forall (M : matrix) (w : list complex),
    geev M = Ok w -> length w = nrows M.

(** The two spectra of one representation have [k1] and [k2] elements. *)
Definition sized (k1 k2 : nat) (p : spectrum * spectrum) : Prop :=
  length (fst p) = k1 /\ length (snd p) = k2.

(** The text of the report for the given verdicts, in order. *)
Definition report_lines (verdicts : list bool) : list string :=
  map (fun rb => verdict_line (mat_name (fst rb)) (snd rb))
      (combine all_representations verdicts).

(* ================================================================== *)
(** * Notions used for the further properties *)






(** Entry [(i, j)] of the real signless Laplacian [D + A]. *)
Definition rsignless (A : rmatrix) (i j : nat) : R :=
  diag_entry 0 (degree A) i j + ritem A i j.


(** A solver that lists the eigenvalues of a triangular matrix from the
    last diagonal entry to the first. *)
Definition reversed_geev (a : matrix) : result (list complex) :=
  Ok (rev (map (fun i => Complex (real_of (item a i i)) 0) (seq 0 (nrows a)))).



(** A 1 x 2 array. *)
Definition array_1x2 : matrix := [[Finite 1; Finite 2]].




(* ================================================================== *)
(** * Basic facts about the array primitives *)

Lemma nth_map_seq (T : Type) (f : nat -> T) (n i : nat) (d : T) :
  (i < n)%nat -> nth i (map f (seq 0 n)) d = f i.
Proof.
  intros Hi.
  rewrite (nth_indep _ d (f 0%nat)) by (rewrite length_map, length_seq; exact Hi).
  rewrite map_nth, seq_nth by exact Hi.
  reflexivity.
Qed.

Lemma map_seq_ext (T : Type) (f g : nat -> T) (n : nat) :
  (forall i, (i < n)%nat -> f i = g i) ->
  map f (seq 0 n) = map g (seq 0 n).
Proof.
  intros H. apply map_ext_in. intros i Hi.
  apply in_seq in Hi. apply H. lia.
Qed.

Lemma list_as_map_seq (T : Type) (l : list T) (d : T) :
  l = map (fun i => nth i l d) (seq 0 (length l)).
Proof.
  apply nth_ext with (d := d) (d' := d).
  - now rewrite length_map, length_seq.
  - intros i Hi. now rewrite nth_map_seq.
Qed.

Lemma nrows_build m n f : nrows (build m n f) = m.
Proof. unfold nrows, build. now rewrite length_map, length_seq. Qed.

Lemma ncols_build m n f :
  ncols (build m n f) = if (m =? 0)%nat then 0%nat else n.
Proof.
  destruct m as [|m]; [reflexivity|].
  unfold build. cbn [seq map ncols]. now rewrite length_map, length_seq.
Qed.

Lemma ncols_build_square n f : ncols (build n n f) = n.
Proof. rewrite ncols_build. now destruct n. Qed.

Lemma item_build m n f i j :
  (i < m)%nat -> (j < n)%nat -> item (build m n f) i j = f i j.
Proof.
  intros Hi Hj. unfold item, build.
  rewrite nth_map_seq by exact Hi.
  now apply nth_map_seq.
Qed.

Lemma build_ext m n f g :
  (forall i j, (i < m)%nat -> (j < n)%nat -> f i j = g i j) ->
  build m n f = build m n g.
Proof.
  intros H. unfold build. apply map_seq_ext. intros i Hi.
  apply map_seq_ext. intros j Hj. now apply H.
Qed.

Lemma is_shape_build m n f : is_shape m n (build m n f).
Proof.
  split; [apply nrows_build|].
  unfold build. apply Forall_forall. intros r Hr.
  apply in_map_iff in Hr. destruct Hr as (i & <- & _).
  now rewrite length_map, length_seq.
Qed.

Lemma is_shape_ncols (T : Type) n (A : list (list T)) :
  is_shape n n A -> match A with [] => 0%nat | r :: _ => length r end = n.
Proof.
  intros [Hlen Hall]. destruct A as [|r A]; [exact Hlen|].
  now inversion Hall.
Qed.

Lemma is_shape_row (T : Type) m n (A : list (list T)) i :
  is_shape m n A -> (i < m)%nat -> length (nth i A []) = n.
Proof.
  intros [Hlen Hall] Hi.
  rewrite Forall_forall in Hall. apply Hall, nth_In. lia.
Qed.

Lemma matrix_as_build m n (A : matrix) :
  is_shape m n A -> A = build m n (item A).
Proof.
  intros HA. pose proof HA as [Hlen _].
  apply nth_ext with (d := []) (d' := []).
  - fold (nrows (build m n (item A))). now rewrite nrows_build.
  - intros i Hi.
    assert (Hi' : (i < m)%nat) by (rewrite <- Hlen; exact Hi).
    unfold build. rewrite nth_map_seq by exact Hi'.
    assert (Hrow : length (nth i A []) = n) by exact (is_shape_row HA Hi').
    apply nth_ext with (d := Finite 0) (d' := Finite 0).
    + now rewrite length_map, length_seq.
    + intros j Hj. rewrite nth_map_seq by lia. reflexivity.
Qed.

Lemma bitem_in_range (A : matrix) i j :
  (i < nrows A)%nat -> (j < ncols A)%nat -> bitem A i j = item A i j.
Proof.
  intros Hi Hj. unfold bitem.
  destruct (Nat.eqb_spec (nrows A) 1) as [E|_];
    destruct (Nat.eqb_spec (ncols A) 1) as [E'|_];
    try (assert (i = 0%nat) by lia; subst i);
    try (assert (j = 0%nat) by lia; subst j);
    reflexivity.
Qed.

Lemma broadcast_dim_same n : broadcast_dim n n = Some n.
Proof. unfold broadcast_dim. now rewrite Nat.eqb_refl. Qed.

(** Same-shape arrays: the ufunc is applied entry by entry. *)
Lemma elementwise_same_shape f n (A B : matrix) :
  nrows A = n -> ncols A = n -> nrows B = n -> ncols B = n ->
  elementwise f A B = Ok (build n n (fun i j => f (item A i j) (item B i j))).
Proof.
  intros HA HA' HB HB'. unfold elementwise.
  rewrite HA, HA', HB, HB', broadcast_dim_same. f_equal.
  apply build_ext. intros i j Hi Hj.
  rewrite !bitem_in_range by lia. reflexivity.
Qed.

Lemma nth_sum_axis1 (A : matrix) i :
  nth i (sum_axis1 A) (Finite 0) = fsum (nth i A []).
Proof. unfold sum_axis1. exact (map_nth fsum A [] i). Qed.

(* ================================================================== *)
(** * Sums of finite values *)

Lemma fold_left_fadd_Finite (l : list R) (a : R) :
  fold_left fadd (map Finite l) (Finite a) = Finite (a + rsum l).
Proof.
  revert a. induction l as [|x l IH]; intros a; cbn.
  - f_equal. lra.
  - rewrite IH. f_equal. unfold rsum. cbn. lra.
Qed.

Lemma fsum_map_Finite (l : list R) : fsum (map Finite l) = Finite (rsum l).
Proof.
  unfold fsum. rewrite fold_left_fadd_Finite. f_equal. lra.
Qed.

Lemma fsum_Finite_seq (h : nat -> R) (n : nat) :
  fsum (map (fun k => Finite (h k)) (seq 0 n)) =
  Finite (rsum (map h (seq 0 n))).
Proof. rewrite <- fsum_map_Finite, map_map. reflexivity. Qed.

Lemma rsum_app (l1 l2 : list R) : rsum (l1 ++ l2) = rsum l1 + rsum l2.
Proof.
  unfold rsum. induction l1 as [|x l1 IH]; cbn; [lra|].
  rewrite IH. lra.
Qed.

Lemma rsum_map_ext (f g : nat -> R) (n : nat) :
  (forall k, (k < n)%nat -> f k = g k) ->
  rsum (map f (seq 0 n)) = rsum (map g (seq 0 n)).
Proof. intros H. now rewrite (map_seq_ext f g H). Qed.


Lemma rsum_map_scale (c : R) (f : nat -> R) (l : list nat) :
  rsum (map (fun k => c * f k) l) = c * rsum (map f l).
Proof.
  unfold rsum. induction l as [|k l IH]; cbn; [lra|].
  rewrite IH. lra.
Qed.

(** A sum with a single non-zero term. *)
Lemma rsum_delta (a : nat -> R) (i n : nat) :
  rsum (map (fun k => if (i =? k)%nat then a k else 0) (seq 0 n)) =
  if (i <? n)%nat then a i else 0.
Proof.
  induction n as [|n IH].
  - reflexivity.
  - rewrite seq_S, map_app, rsum_app, IH. cbn [Nat.add map].
    unfold rsum at 1. cbn [fold_right].
    destruct (Nat.eqb_spec i n) as [E|Hne];
      destruct (Nat.ltb_spec i n); destruct (Nat.ltb_spec i (S n));
      try lia; try subst i; lra.
Qed.

Lemma rsum_delta_in (a : nat -> R) (i n : nat) :
  (i < n)%nat ->
  rsum (map (fun k => if (i =? k)%nat then a k else 0) (seq 0 n)) = a i.
Proof.
  intros Hi. rewrite rsum_delta.
  now replace (i <? n)%nat with true by (symmetry; apply Nat.ltb_lt; lia).
Qed.

(* ================================================================== *)
(** * Arrays that hold real matrices *)

Lemma is_shape_lift m n (A : rmatrix) : is_shape m n A -> is_shape m n (lift A).
Proof.
  intros [Hlen Hall]. split.
  - unfold lift. now rewrite length_map.
  - unfold lift. apply Forall_forall. intros r Hr.
    apply in_map_iff in Hr. destruct Hr as (r' & <- & Hin).
    rewrite length_map. rewrite Forall_forall in Hall. now apply Hall.
Qed.

Lemma nth_lift (A : rmatrix) i : nth i (lift A) [] = map Finite (nth i A []).
Proof. unfold lift. exact (map_nth (map Finite) A [] i). Qed.

Lemma item_lift (A : rmatrix) i j : item (lift A) i j = Finite (ritem A i j).
Proof.
  unfold item, ritem. rewrite nth_lift. exact (map_nth Finite _ 0 j).
Qed.

Lemma fsum_lift_row (A : rmatrix) i :
  fsum (nth i (lift A) []) = Finite (degree A i).
Proof. rewrite nth_lift. apply fsum_map_Finite. Qed.

Lemma degree_as_sum m n (A : rmatrix) i :
  is_shape m n A -> (i < m)%nat ->
  degree A i = rsum (map (ritem A i) (seq 0 n)).
Proof.
  intros HA Hi. unfold degree.
  rewrite (list_as_map_seq (nth i A []) 0) at 1.
  rewrite (is_shape_row HA Hi). reflexivity.
Qed.

Lemma nth_build m n f i :
  (i < m)%nat -> nth i (build m n f) [] = map (f i) (seq 0 n).
Proof.
  intros Hi. unfold build. rewrite nth_map_seq by exact Hi.
  apply map_ext. reflexivity.
Qed.






(* ================================================================== *)
(** * Laplacian and signless Laplacian *)

Lemma is_shape_dims n (A : matrix) :
  is_shape n n A -> nrows A = n /\ ncols A = n.
Proof.
  intros HA. split; [exact (proj1 HA)|]. exact (is_shape_ncols HA).
Qed.

Lemma length_sum_axis1 (A : matrix) : length (sum_axis1 A) = nrows A.
Proof. unfold sum_axis1, nrows. now rewrite length_map. Qed.

Lemma item_np_diag (v : vector) i j :
  (i < length v)%nat -> (j < length v)%nat ->
  item (np_diag v) i j = diag_entry (Finite 0) (fun k => nth k v (Finite 0)) i j.
Proof. intros Hi Hj. unfold np_diag. now rewrite item_build. Qed.

(** [np.diag(A.sum(axis=1))] combined entry-wise with a square [A]. *)
Lemma degree_diagonal_combined f n (A : matrix) :
  is_shape n n A ->
  elementwise f (np_diag (sum_axis1 A)) A =
  Ok (build n n (fun i j =>
                   f (diag_entry (Finite 0) (fun k => fsum (nth k A [])) i j)
                     (item A i j))).
Proof.
  intros HA. destruct (is_shape_dims HA) as [Hr Hc].
  assert (Hd : length (sum_axis1 A) = n) by (now rewrite length_sum_axis1).
  rewrite (@elementwise_same_shape f n).
  - f_equal. apply build_ext. intros i j Hi Hj.
    rewrite item_np_diag by (rewrite Hd; assumption).
    unfold diag_entry. now rewrite nth_sum_axis1.
  - unfold np_diag. now rewrite nrows_build.
  - unfold np_diag. now rewrite ncols_build_square.
  - exact Hr.
  - exact Hc.
Qed.

Lemma laplacian_square n (A : matrix) :
  is_shape n n A -> laplacian A = Ok (laplacian_spec n A).
Proof. intros HA. apply (degree_diagonal_combined fsub HA). Qed.

Lemma signless_laplacian_square n (A : matrix) :
  is_shape n n A -> signless_laplacian A = Ok (signless_laplacian_spec n A).
Proof. intros HA. apply (degree_diagonal_combined fadd HA). Qed.

Lemma laplacian_lift n (A : rmatrix) :
  is_shape n n A ->
  laplacian (lift A) = Ok (build n n (fun i j => Finite (rlaplacian A i j))).
Proof.
  intros HA. rewrite (laplacian_square (is_shape_lift HA)). f_equal.
  apply build_ext. intros i j _ _.
  unfold rlaplacian, diag_entry. rewrite item_lift.
  destruct (i =? j)%nat; [rewrite fsum_lift_row|]; reflexivity.
Qed.

(** The Laplacian of the single edge. *)
Example laplacian_K2 :
  laplacian (lift K2) = Ok (lift [[1; -1]; [-1; 1]]).
Proof.
  rewrite (@laplacian_lift 2 K2) by (split; [reflexivity | repeat constructor]).
  unfold rlaplacian, degree, ritem, diag_entry, rsum. cbn.
  repeat (f_equal; try lra).
Qed.

(** C3.  For a square array [A], [laplacian(A)] is [diag(rowSums(A)) - A]
    and [signless_laplacian(A)] is [diag(rowSums(A)) + A]: entry [(i, j)]
    is the row sum of row [i] on the diagonal (zero elsewhere) minus,
    respectively plus, [A[i][j]]. *)
Theorem laplacian_is_degree_minus_adjacency (n : nat) (A : matrix) :
  is_shape n n A ->
  laplacian A = Ok (laplacian_spec n A) /\
  signless_laplacian A = Ok (signless_laplacian_spec n A).
Proof.
  intros HA. split.
  - exact (laplacian_square HA).
  - exact (signless_laplacian_square HA).
Qed.

Lemma laplacian_is_degree_minus_adjacency_witness :
  is_shape 2 2 (lift K2) /\
  laplacian (lift K2) = Ok (laplacian_spec 2 (lift K2)) /\
  signless_laplacian (lift K2) = Ok (signless_laplacian_spec 2 (lift K2)).
Proof.
  assert (H : is_shape 2 2 (lift K2)) by (split; [reflexivity | repeat constructor]).
  split; [exact H|].
  exact (laplacian_is_degree_minus_adjacency H).
Defined.




(* ================================================================== *)
(** * Sorting and the canonical spectrum *)

Lemma insert_perm (x : R) (l : list R) : Permutation (insert x l) (x :: l).
Proof.
  induction l as [|y l IH]; cbn.
  - apply Permutation_refl.
  - destruct (Rle_dec x y).
    + apply Permutation_refl.
    + apply perm_trans with (y :: x :: l).
      * now apply perm_skip.
      * apply perm_swap.
Qed.

Lemma np_sort_perm (l : list R) : Permutation (np_sort l) l.
Proof.
  induction l as [|x l IH]; cbn.
  - apply perm_nil.
  - apply perm_trans with (x :: np_sort l).
    + apply insert_perm.
    + now apply perm_skip.
Qed.

Lemma insert_hd (x a : R) (l : list R) :
  a <= x -> HdRel Rle a l -> HdRel Rle a (insert x l).
Proof.
  intros Hax Hal. destruct l as [|y l]; cbn.
  - now constructor.
  - destruct (Rle_dec x y); constructor; trivial.
    now inversion Hal.
Qed.

Lemma insert_sorted (x : R) (l : list R) :
  Sorted Rle l -> Sorted Rle (insert x l).
Proof.
  induction 1 as [|y l Hs IH Hhd]; cbn.
  - repeat constructor.
  - destruct (Rle_dec x y) as [Hle|Hgt].
    + constructor; [constructor; assumption|]. now constructor.
    + constructor; [exact IH|]. apply insert_hd; [lra | exact Hhd].
Qed.

Lemma np_sort_sorted (l : list R) : StronglySorted Rle (np_sort l).
Proof.
  apply Sorted_StronglySorted.
  - intros a b c Hab Hbc. lra.
  - induction l as [|x l IH]; cbn.
    + constructor.
    + now apply insert_sorted.
Qed.

Lemma np_sort_length (l : list R) : length (np_sort l) = length l.
Proof. apply Permutation_length, np_sort_perm. Qed.

Example np_sort_three : np_sort [2; -1; 0] = [-1; 0; 2].
Proof.
  unfold np_sort. cbn [fold_right insert].
  repeat (cbn [insert]; destruct (Rle_dec _ _); try lra).
  reflexivity.
Qed.

Lemma np_linalg_eigvals_accepts geev n (M : matrix) :
  is_shape n n M -> all_finite M = true ->
  np_linalg_eigvals geev M = geev M.
Proof.
  intros HM Hfin. destruct (is_shape_dims HM) as [Hr Hc].
  unfold np_linalg_eigvals. now rewrite Hr, Hc, Nat.eqb_refl, Hfin.
Qed.

Lemma sorted_eigvals_accepts geev n (M : matrix) w :
  is_shape n n M -> all_finite M = true -> geev M = Ok w ->
  sorted_eigvals geev M = Ok (np_sort (map re w)).
Proof.
  intros HM Hfin Hw. unfold sorted_eigvals, to_adj.
  now rewrite (np_linalg_eigvals_accepts geev HM Hfin), Hw.
Qed.

(** C4.  When the solver yields the [n] eigenvalues [w] of a square
    [n] x [n] array, [sorted_eigvals] returns their real parts (the same
    multiset: a permutation of [map re w]), as [n] reals in ascending
    order.  Nothing is required of the imaginary parts: they are dropped
    whatever their magnitude. *)
Theorem sorted_eigvals_real_parts_ascending
        (geev : matrix -> result (list complex))
        (n : nat) (M : matrix) (w : list complex) :
  is_shape n n M -> all_finite M = true ->
  geev M = Ok w -> length w = n ->
  exists s : spectrum,
    sorted_eigvals geev M = Ok s /\
    Permutation s (map re w) /\
    length s = n /\
    StronglySorted Rle s.
Proof.
  intros HM Hfin Hw Hlen. exists (np_sort (map re w)).
  split; [exact (sorted_eigvals_accepts geev HM Hfin Hw)|].
  split; [apply np_sort_perm|].
  split; [now rewrite np_sort_length, length_map|].
  apply np_sort_sorted.
Qed.

Lemma sorted_eigvals_real_parts_ascending_witness :
  exists s : spectrum,
    sorted_eigvals triangular_geev (lift upper2) = Ok s /\
    Permutation s (map re [Complex 2 0; Complex (-1) 0]) /\
    length s = 2%nat /\
    StronglySorted Rle s.
Proof.
  apply (@sorted_eigvals_real_parts_ascending triangular_geev 2 (lift upper2)).
  - split; [reflexivity | repeat constructor].
  - reflexivity.
  - reflexivity.
  - reflexivity.
Defined.

(* ================================================================== *)
(** * The tolerance test *)

Lemma within_tol_spec (a b : R) : within_tol a b = true <-> close_enough a b.
Proof.
  unfold within_tol, close_enough.
  destruct (Rle_dec (Rabs (a - b)) (atol + rtol * Rabs b)); split;
    intros H; try reflexivity; try assumption; try discriminate.
  contradiction.
Qed.

Lemma bnth_in_range (s : spectrum) i :
  (i < length s)%nat -> bnth s i = nth i s 0.
Proof.
  intros Hi. unfold bnth.
  destruct (Nat.eqb_spec (length s) 1) as [E|_]; [|reflexivity].
  now replace i with 0%nat by lia.
Qed.


Lemma allclose_same_length (s1 s2 : spectrum) :
  length s1 = length s2 ->
  allclose s1 s2 =
  Ok (forallb (fun b => b)
              (map (fun i => within_tol (nth i s1 0) (nth i s2 0))
                   (seq 0 (length s1)))).
Proof.
  intros Hlen. unfold allclose, isclose.
  rewrite <- Hlen, broadcast_dim_same. cbn [bind]. do 2 f_equal.
  apply map_seq_ext. intros i Hi.
  rewrite !bnth_in_range by lia. reflexivity.
Qed.



Lemma within_tol_low_high : within_tol 100000 100001.000005 = true.
Proof.
  apply within_tol_spec. unfold close_enough, atol, rtol.
  rewrite Rabs_left by lra. rewrite Rabs_right by lra. lra.
Qed.

Lemma within_tol_high_low : within_tol 100001.000005 100000 = false.
Proof.
  destruct (within_tol 100001.000005 100000) eqn:E; [|reflexivity].
  apply within_tol_spec in E. unfold close_enough, atol, rtol in E.
  rewrite !Rabs_right in E by lra. lra.
Qed.

(** C9.  The tolerance test is not symmetric: there are two sorted spectra
    of equal length that are close in one order of the arguments and not
    in the other, the relative term being taken from the second one. *)
Theorem allclose_not_symmetric :
  exists s1 s2 : spectrum,
    length s1 = length s2 /\
    StronglySorted Rle s1 /\ StronglySorted Rle s2 /\
    allclose s1 s2 = Ok true /\
    allclose s2 s1 = Ok false.
Proof.
  exists spectrum_low, spectrum_high.
  split; [reflexivity|].
  split; [repeat constructor|].
  split; [repeat constructor|].
  split.
  - rewrite allclose_same_length by reflexivity.
    cbn. now rewrite within_tol_low_high.
  - rewrite allclose_same_length by reflexivity.
    cbn. now rewrite within_tol_high_low.
Qed.

(* ================================================================== *)
(** * Spectra of different lengths *)

Lemma broadcast_dim_mismatch (a b : nat) :
  a <> b -> a <> 1%nat -> b <> 1%nat -> broadcast_dim a b = None.
Proof.
  intros Hab Ha Hb. unfold broadcast_dim.
  destruct (Nat.eqb_spec a b); [contradiction|].
  destruct (Nat.eqb_spec a 1); [contradiction|].
  destruct (Nat.eqb_spec b 1); [contradiction|].
  reflexivity.
Qed.

Lemma allclose_mismatch (s1 s2 : spectrum) :
  length s1 <> length s2 -> length s1 <> 1%nat -> length s2 <> 1%nat ->
  allclose s1 s2 = Raise ValueError.
Proof.
  intros H H1 H2. unfold allclose, isclose.
  now rewrite (broadcast_dim_mismatch H H1 H2).
Qed.

Lemma forallb_map (T : Type) (f : T -> bool) (l : list T) :
  forallb (fun b => b) (map f l) = forallb f l.
Proof. induction l as [|x l IH]; cbn; [reflexivity | now rewrite IH]. Qed.

(** A one-element spectrum on the left is compared with every element of
    the other spectrum. *)
Lemma allclose_single_left (a : R) (s2 : spectrum) :
  allclose [a] s2 = Ok (forallb (fun b => within_tol a b) s2).
Proof.
  unfold allclose, isclose. cbn [length].
  assert (Hb : broadcast_dim 1 (length s2) = Some (length s2)).
  { unfold broadcast_dim. destruct (Nat.eqb_spec 1 (length s2)) as [E|_].
    - now rewrite <- E.
    - reflexivity. }
  rewrite Hb. cbn [bind]. f_equal.
  rewrite <- (forallb_map (fun b => within_tol a b) s2). f_equal.
  transitivity (map (fun b => within_tol a b)
                    (map (fun i => nth i s2 0) (seq 0 (length s2)))).
  - rewrite map_map. apply map_seq_ext. intros i Hi.
    rewrite (bnth_in_range s2 Hi). reflexivity.
  - now rewrite <- list_as_map_seq.
Qed.

Lemma allclose_single_right (s1 : spectrum) (b : R) :
  allclose s1 [b] = Ok (forallb (fun a => within_tol a b) s1).
Proof.
  unfold allclose, isclose. cbn [length].
  assert (Hb : broadcast_dim (length s1) 1 = Some (length s1)).
  { unfold broadcast_dim. destruct (Nat.eqb_spec (length s1) 1) as [E|_].
    - now rewrite E.
    - reflexivity. }
  rewrite Hb. cbn [bind]. f_equal.
  rewrite <- (forallb_map (fun a => within_tol a b) s1). f_equal.
  transitivity (map (fun a => within_tol a b)
                    (map (fun i => nth i s1 0) (seq 0 (length s1)))).
  - rewrite map_map. apply map_seq_ext. intros i Hi.
    rewrite (bnth_in_range s1 Hi). reflexivity.
  - now rewrite <- list_as_map_seq.
Qed.

(* ================================================================== *)
(** * Normalized Laplacian *)

Lemma lift_rbuild m n f :
  lift (rbuild m n f) = build m n (fun i j => Finite (f i j)).
Proof.
  unfold lift, rbuild, build. rewrite map_map.
  apply map_ext. intros i. now rewrite map_map.
Qed.

Lemma is_shape_rbuild m n f : is_shape m n (rbuild m n f).
Proof.
  split.
  - unfold rbuild. now rewrite length_map, length_seq.
  - unfold rbuild. apply Forall_forall. intros r Hr.
    apply in_map_iff in Hr. destruct Hr as (i & <- & _).
    now rewrite length_map, length_seq.
Qed.


Lemma nth_map_in_range (T U : Type) (f : T -> U) (l : list T) i d d' :
  (i < length l)%nat -> nth i (map f l) d' = f (nth i l d).
Proof.
  intros Hi. rewrite (nth_indep _ d' (f d)) by (now rewrite length_map).
  apply map_nth.
Qed.

Lemma zero_where_isinf_build m n f :
  zero_where_isinf (build m n f) =
  build m n (fun i j => if isinf (f i j) then Finite 0 else f i j).
Proof.
  unfold zero_where_isinf, build. rewrite map_map.
  apply map_ext. intros i. now rewrite map_map.
Qed.

Lemma rsum_nonneg (l : list R) : Forall (fun x => 0 <= x) l -> 0 <= rsum l.
Proof.
  unfold rsum. induction 1 as [|x l Hx _ IH]; cbn; lra.
Qed.

Lemma degree_nonneg (A : rmatrix) i : nonnegative A -> 0 <= degree A i.
Proof.
  intros HA. unfold degree. apply rsum_nonneg.
  destruct (Nat.lt_ge_cases i (length A)) as [Hi|Hi].
  - unfold nonnegative in HA. rewrite Forall_forall in HA.
    apply HA. now apply nth_In.
  - rewrite nth_overflow by exact Hi. constructor.
Qed.

(** One diagonal entry of [D_inv_sqrt] after the [isinf] entries have been
    set to zero. *)
Lemma masked_inv_sqrt (d : R) :
  0 <= d ->
  (let x := fdiv (Finite 1) (fsqrt (Finite d)) in
   if isinf x then Finite 0 else x) =
  Finite (if Rlt_dec 0 d then 1 / sqrt d else 0).
Proof.
  intros Hd. cbn zeta. unfold fsqrt.
  destruct (Rlt_dec d 0) as [Hneg|_]; [lra|].
  unfold fdiv. destruct (Req_dec_T (sqrt d) 0) as [Hz|Hnz].
  - assert (d = 0) by (now apply sqrt_eq_0).
    unfold inf_of_sign.
    destruct (Req_dec_T 1 0) as [H1|_]; [lra|].
    destruct (Rlt_dec 0 1) as [_|H1]; [|lra].
    cbn. destruct (Rlt_dec 0 d); [lra | reflexivity].
  - cbn. destruct (Rlt_dec 0 d) as [_|Hnp]; [reflexivity|].
    exfalso. apply Hnz. replace d with 0 by lra. apply sqrt_0.
Qed.

Lemma masked_degree_scaling n (A : rmatrix) :
  is_shape n n A -> nonnegative A ->
  zero_where_isinf (np_diag (inv_sqrt (sum_axis1 (lift A)))) =
  build n n (fun i j => Finite (diag_entry 0 (scale A) i j)).
Proof.
  intros HA Hpos.
  assert (Hlen : length (sum_axis1 (lift A)) = n).
  { rewrite length_sum_axis1. exact (proj1 (is_shape_lift HA)). }
  unfold np_diag, inv_sqrt. rewrite length_map, Hlen.
  rewrite zero_where_isinf_build. apply build_ext. intros i j Hi Hj.
  unfold diag_entry. destruct (i =? j)%nat; [|reflexivity].
  rewrite (@nth_map_in_range _ _ _ _ i (Finite 0)) by (now rewrite Hlen).
  rewrite nth_sum_axis1, fsum_lift_row.
  apply (masked_inv_sqrt (degree_nonneg i Hpos)).
Qed.

(** The product of two finite square arrays. *)
Lemma matmul_build_Finite n (f g : nat -> nat -> R) :
  matmul (build n n (fun i j => Finite (f i j)))
         (build n n (fun i j => Finite (g i j))) =
  Ok (build n n (fun i j =>
                   Finite (rsum (map (fun k => f i k * g k j) (seq 0 n))))).
Proof.
  unfold matmul.
  rewrite !ncols_build_square, !nrows_build, Nat.eqb_refl. f_equal.
  apply build_ext. intros i j Hi Hj.
  rewrite <- fsum_Finite_seq. f_equal. apply map_seq_ext. intros k Hk.
  now rewrite !item_build.
Qed.

Lemma scale_rows n (s : nat -> R) (g : nat -> nat -> R) i j :
  (i < n)%nat ->
  rsum (map (fun k => diag_entry 0 s i k * g k j) (seq 0 n)) = s i * g i j.
Proof.
  intros Hi.
  rewrite <- (rsum_delta_in (fun k => s i * g k j) Hi).
  apply rsum_map_ext. intros k Hk. unfold diag_entry.
  destruct (i =? k)%nat; lra.
Qed.

Lemma scale_columns n (s : nat -> R) (g : nat -> nat -> R) i j :
  (j < n)%nat ->
  rsum (map (fun k => g i k * diag_entry 0 s k j) (seq 0 n)) = g i j * s j.
Proof.
  intros Hj.
  rewrite <- (rsum_delta_in (fun k => g i k * s k) Hj).
  apply rsum_map_ext. intros k Hk. unfold diag_entry.
  rewrite (Nat.eqb_sym k j). destruct (j =? k)%nat; lra.
Qed.

Lemma normalized_laplacian_lift n (A : rmatrix) :
  is_shape n n A -> nonnegative A ->
  normalized_laplacian (lift A) = Ok (lift (normalized_laplacian_spec n A)).
Proof.
  intros HA Hpos. unfold normalized_laplacian, to_adj.
  rewrite (masked_degree_scaling HA Hpos).
  change (laplacian (to_adj (lift A))) with (laplacian (lift A)).
  rewrite (laplacian_lift HA). cbn [bind].
  rewrite matmul_build_Finite. cbn [bind].
  rewrite matmul_build_Finite. f_equal.
  unfold normalized_laplacian_spec. rewrite lift_rbuild.
  apply build_ext. intros i j Hi Hj. f_equal.
  rewrite (scale_columns (scale A)
             (fun i k =>
                rsum (map (fun l => diag_entry 0 (scale A) i l
                                    * rlaplacian A l k) (seq 0 n)))
             i Hj).
  f_equal. apply (scale_rows (scale A) (rlaplacian A) j Hi).
Qed.

Lemma scale_isolated (A : rmatrix) i : degree A i = 0 -> scale A i = 0.
Proof.
  intros Hd. unfold scale. rewrite Hd.
  destruct (Rlt_dec 0 0); [lra | reflexivity].
Qed.




(* ================================================================== *)
(** * Inputs that are not square *)

Lemma nrows_np_diag (v : vector) : nrows (np_diag v) = length v.
Proof. unfold np_diag. apply nrows_build. Qed.

Lemma ncols_np_diag (v : vector) : ncols (np_diag v) = length v.
Proof. unfold np_diag. apply ncols_build_square. Qed.

Lemma degree_diagonal_mismatch f (A : matrix) :
  nrows A <> ncols A -> nrows A <> 1%nat -> ncols A <> 1%nat ->
  elementwise f (np_diag (sum_axis1 A)) A = Raise ValueError.
Proof.
  intros Hne Hr Hc. unfold elementwise.
  rewrite nrows_np_diag, ncols_np_diag, length_sum_axis1.
  rewrite broadcast_dim_same, (broadcast_dim_mismatch Hne Hr Hc).
  reflexivity.
Qed.

Lemma degree_diagonal_broadcast f (A : matrix) :
  ncols A = 1%nat \/ nrows A = 1%nat ->
  exists B, elementwise f (np_diag (sum_axis1 A)) A = Ok B.
Proof.
  intros H. unfold elementwise.
  rewrite nrows_np_diag, ncols_np_diag, length_sum_axis1.
  rewrite broadcast_dim_same. unfold broadcast_dim.
  destruct (nrows A =? ncols A)%nat; [eexists; reflexivity|].
  destruct (Nat.eqb_spec (nrows A) 1); [eexists; reflexivity|].
  destruct (Nat.eqb_spec (ncols A) 1); [eexists; reflexivity|].
  destruct H; contradiction.
Qed.

Lemma np_linalg_eigvals_not_square geev (A : matrix) :
  nrows A <> ncols A -> np_linalg_eigvals geev A = Raise LinAlgError.
Proof.
  intros Hne. unfold np_linalg_eigvals.
  destruct (Nat.eqb_spec (nrows A) (ncols A)); [contradiction|reflexivity].
Qed.

(** C8 (as the code has it).  [sorted_eigvals] raises on every input that
    is not square.  [laplacian], [normalized_laplacian] and
    [signless_laplacian] raise when the input is not square and neither of
    its dimensions is 1; an [m] x 1 or 1 x [n] input is broadcast against
    the degree diagonal, and [laplacian] and [signless_laplacian] return a
    result. *)
Theorem nonsquare_input_raises
        (geev : matrix -> result (list complex)) (A : matrix) :
  nrows A <> ncols A ->
  sorted_eigvals geev A = Raise LinAlgError /\
  (nrows A <> 1%nat -> ncols A <> 1%nat ->
   laplacian A = Raise ValueError /\
   normalized_laplacian A = Raise ValueError /\
   signless_laplacian A = Raise ValueError) /\
  (ncols A = 1%nat \/ nrows A = 1%nat ->
   (exists L, laplacian A = Ok L) /\
   (exists Q, signless_laplacian A = Ok Q)).
Proof.
  intros Hne. split; [|split].
  - unfold sorted_eigvals, to_adj.
    now rewrite (np_linalg_eigvals_not_square geev A Hne).
  - intros Hr Hc.
    assert (HL : laplacian A = Raise ValueError)
      by exact (degree_diagonal_mismatch fsub A Hne Hr Hc).
    split; [exact HL|]. split.
    + unfold normalized_laplacian.
      change (laplacian (to_adj A)) with (laplacian A).
      now rewrite HL.
    + exact (degree_diagonal_mismatch fadd A Hne Hr Hc).
  - intros H. split.
    + exact (degree_diagonal_broadcast fsub A H).
    + exact (degree_diagonal_broadcast fadd A H).
Qed.

Lemma nonsquare_input_raises_witness :
  sorted_eigvals triangular_geev array_2x3 = Raise LinAlgError /\
  (nrows array_2x3 <> 1%nat -> ncols array_2x3 <> 1%nat ->
   laplacian array_2x3 = Raise ValueError /\
   normalized_laplacian array_2x3 = Raise ValueError /\
   signless_laplacian array_2x3 = Raise ValueError) /\
  (ncols array_2x3 = 1%nat \/ nrows array_2x3 = 1%nat ->
   (exists L, laplacian array_2x3 = Ok L) /\
   (exists Q, signless_laplacian array_2x3 = Ok Q)).
Proof.
  apply (@nonsquare_input_raises triangular_geev array_2x3).
  cbn. lia.
Defined.

(** A non-square input on which the derivations return a result: the
    column [[1], [2]] is broadcast against [diag(1, 2)]. *)
Lemma column_input_is_broadcast :
  shape column_2x1 = (2%nat, 1%nat) /\
  laplacian column_2x1 =
    Ok [[Finite 0; Finite (-1)]; [Finite (-2); Finite 0]] /\
  signless_laplacian column_2x1 =
    Ok [[Finite 2; Finite 1]; [Finite 2; Finite 4]] /\
  exists N, normalized_laplacian column_2x1 = Ok N.
Proof.
  assert (HL : laplacian column_2x1 =
               Ok [[Finite 0; Finite (-1)]; [Finite (-2); Finite 0]]).
  { cbn. repeat (f_equal; try lra). }
  split; [reflexivity|]. split; [exact HL|]. split.
  - cbn. repeat (f_equal; try lra).
  - unfold normalized_laplacian.
    change (laplacian (to_adj column_2x1)) with (laplacian column_2x1).
    rewrite HL. cbn [bind]. unfold matmul.
    unfold zero_where_isinf, np_diag, inv_sqrt, sum_axis1, to_adj,
      column_2x1, build.
    cbn [map length seq ncols nrows Nat.eqb bind].
    eexists. reflexivity.
Qed.

(* ================================================================== *)
(** * The pair report *)

Lemma all_finite_lift (A : rmatrix) : all_finite (lift A) = true.
Proof.
  unfold all_finite, lift. rewrite forallb_forall. intros r Hr.
  apply in_map_iff in Hr. destruct Hr as (r' & <- & _).
  rewrite forallb_forall. intros x Hx.
  apply in_map_iff in Hx. now destruct Hx as (x' & <- & _).
Qed.

Lemma all_finite_build_Finite m n (f : nat -> nat -> R) :
  all_finite (build m n (fun i j => Finite (f i j))) = true.
Proof. rewrite <- lift_rbuild. apply all_finite_lift. Qed.

Lemma signless_laplacian_lift n (A : rmatrix) :
  is_shape n n A ->
  signless_laplacian (lift A) =
  Ok (build n n (fun i j =>
                   Finite (diag_entry 0 (degree A) i j + ritem A i j))).
Proof.
  intros HA. rewrite (signless_laplacian_square (is_shape_lift HA)). f_equal.
  apply build_ext. intros i j _ _.
  unfold diag_entry. rewrite item_lift.
  destruct (i =? j)%nat; [rewrite fsum_lift_row|]; reflexivity.
Qed.

(** The keys are counted in code points, as Python does. *)
Example verdict_line_examples :
  verdict_line (mat_name Adjacency) true = "Adjacency A    : cospettrali"%string /\
  verdict_line (mat_name SignlessLaplacian) false
  = "Signless |L|   : diversi"%string /\
  py_len (mat_name LineGraphAdjacency) = 12%nat.
Proof. repeat split; reflexivity. Qed.

Lemma sorted_eigvals_total geev k (M : matrix) :
  solver_total geev -> is_shape k k M -> all_finite M = true ->
  exists s, sorted_eigvals geev M = Ok s /\ length s = k.
Proof.
  intros Hg HM Hfin. destruct (Hg k M HM Hfin) as (w & Hw & Hlen).
  exists (np_sort (map re w)). split.
  - exact (sorted_eigvals_accepts geev HM Hfin Hw).
  - now rewrite np_sort_length, length_map.
Qed.

Lemma sorted_eigvals_length geev (M : matrix) (s : spectrum) :
  solver_sized geev -> sorted_eigvals geev M = Ok s -> length s = nrows M.
Proof.
  intros Hg. unfold sorted_eigvals, np_linalg_eigvals, to_adj.
  destruct (negb (nrows M =? ncols M)%nat); [discriminate|].
  destruct (negb (all_finite M)); [discriminate|].
  destruct (geev M) as [w|e] eqn:Hw; [|discriminate].
  cbn [bind]. intros [= <-].
  rewrite np_sort_length, length_map. exact (Hg M w Hw).
Qed.

(** With a converging solver and a line-graph collaborator that returns
    finite square arrays, all ten spectra are computed. *)
Lemma specs_ok geev lg n1 n2 m1 m2 (A1 A2 : rmatrix) (G1 G2 : matrix) :
  solver_total geev ->
  is_shape n1 n1 A1 -> nonnegative A1 ->
  is_shape n2 n2 A2 -> nonnegative A2 ->
  lg (lift A1) = Ok G1 -> is_shape m1 m1 G1 -> all_finite G1 = true ->
  lg (lift A2) = Ok G2 -> is_shape m2 m2 G2 -> all_finite G2 = true ->
  exists pa pl pn pq pg,
    specs geev lg (lift A1) (lift A2) =
    Ok [ (mat_name Adjacency, pa);
         (mat_name Laplacian, pl);
         (mat_name NormalizedLaplacian, pn);
         (mat_name SignlessLaplacian, pq);
         (mat_name LineGraphAdjacency, pg) ] /\
    sized n1 n2 pa /\ sized n1 n2 pl /\ sized n1 n2 pn /\
    sized n1 n2 pq /\ sized m1 m2 pg.
Proof.
  intros Hg HA1 P1 HA2 P2 E1 HG1 F1 E2 HG2 F2.
  destruct (sorted_eigvals_total Hg (is_shape_lift HA1) (all_finite_lift A1))
    as (a1 & Ea1 & La1).
  destruct (sorted_eigvals_total Hg (is_shape_lift HA2) (all_finite_lift A2))
    as (a2 & Ea2 & La2).
  destruct (sorted_eigvals_total Hg (is_shape_build n1 n1 _)
              (all_finite_build_Finite n1 n1 (rlaplacian A1)))
    as (l1 & El1 & Ll1).
  destruct (sorted_eigvals_total Hg (is_shape_build n2 n2 _)
              (all_finite_build_Finite n2 n2 (rlaplacian A2)))
    as (l2 & El2 & Ll2).
  destruct (sorted_eigvals_total Hg
              (is_shape_lift (is_shape_rbuild n1 n1 _))
              (all_finite_lift (normalized_laplacian_spec n1 A1)))
    as (x1 & Ex1 & Lx1).
  destruct (sorted_eigvals_total Hg
              (is_shape_lift (is_shape_rbuild n2 n2 _))
              (all_finite_lift (normalized_laplacian_spec n2 A2)))
    as (x2 & Ex2 & Lx2).
  destruct (sorted_eigvals_total Hg (is_shape_build n1 n1 _)
              (all_finite_build_Finite n1 n1
                 (fun i j => diag_entry 0 (degree A1) i j + ritem A1 i j)))
    as (q1 & Eq1 & Lq1).
  destruct (sorted_eigvals_total Hg (is_shape_build n2 n2 _)
              (all_finite_build_Finite n2 n2
                 (fun i j => diag_entry 0 (degree A2) i j + ritem A2 i j)))
    as (q2 & Eq2 & Lq2).
  destruct (sorted_eigvals_total Hg HG1 F1) as (g1 & Eg1 & Lg1).
  destruct (sorted_eigvals_total Hg HG2 F2) as (g2 & Eg2 & Lg2).
  exists (a1, a2), (l1, l2), (x1, x2), (q1, q2), (g1, g2).
  split; [|repeat split; assumption].
  unfold specs.
  rewrite Ea1, Ea2. cbn [bind].
  rewrite (laplacian_lift HA1). cbn [bind]. rewrite El1. cbn [bind].
  rewrite (laplacian_lift HA2). cbn [bind]. rewrite El2. cbn [bind].
  rewrite (normalized_laplacian_lift HA1 P1). cbn [bind].
  unfold normalized_laplacian_spec at 1. rewrite Ex1. cbn [bind].
  rewrite (normalized_laplacian_lift HA2 P2). cbn [bind].
  unfold normalized_laplacian_spec at 1. rewrite Ex2. cbn [bind].
  rewrite (signless_laplacian_lift HA1). cbn [bind]. rewrite Eq1. cbn [bind].
  rewrite (signless_laplacian_lift HA2). cbn [bind]. rewrite Eq2. cbn [bind].
  rewrite E1. cbn [bind]. rewrite Eg1. cbn [bind].
  rewrite E2. cbn [bind]. rewrite Eg2. cbn [bind].
  reflexivity.
Qed.


Lemma report_mismatch key (s1 s2 : spectrum) rest :
  length s1 <> length s2 -> length s1 <> 1%nat -> length s2 <> 1%nat ->
  report ((key, (s1, s2)) :: rest) = ([], Raise ValueError).
Proof.
  intros H H1 H2. cbn [report]. now rewrite (allclose_mismatch s1 s2 H H1 H2).
Qed.

Lemma specs_first geev lg (A1 A2 : matrix) sp :
  specs geev lg A1 A2 = Ok sp ->
  exists a1 a2 rest,
    sp = (mat_name Adjacency, (a1, a2)) :: rest /\
    sorted_eigvals geev A1 = Ok a1 /\ sorted_eigvals geev A2 = Ok a2.
Proof.
  unfold specs. intros H.
  destruct (sorted_eigvals geev A1) as [a1|] eqn:E1; [|discriminate].
  cbn [bind] in H.
  destruct (sorted_eigvals geev A2) as [a2|] eqn:E2; [|discriminate].
  cbn [bind] in H.
  repeat match type of H with
         | bind ?c _ = Ok _ => destruct c; [cbn [bind] in H | discriminate H]
         end.
  injection H as <-. do 3 eexists. repeat split; reflexivity.
Qed.

(** Two adjacency matrices of different orders, neither of order 1: the
    run ends with an exception and prints no verdict. *)
Lemma compare_pair_mismatch geev lg (A1 A2 : matrix) name :
  solver_sized geev ->
  nrows A1 <> nrows A2 -> nrows A1 <> 1%nat -> nrows A2 <> 1%nat ->
  exists e,
    snd (compare_pair geev lg A1 A2 name) = Raise e /\
    (fst (compare_pair geev lg A1 A2 name) = [] \/
     fst (compare_pair geev lg A1 A2 name) = [header_line name]).
Proof.
  intros Hg Hne H1 H2. unfold compare_pair, to_adj.
  destruct (specs geev lg A1 A2) as [sp|e] eqn:E.
  - destruct (specs_first _ _ _ _ E) as (a1 & a2 & rest & -> & E1 & E2).
    apply (@sorted_eigvals_length _ _ _ Hg) in E1, E2.
    rewrite report_mismatch by (rewrite ?E1, ?E2; assumption).
    exists ValueError. cbn. split; [reflexivity | now right].
  - exists e. cbn. split; [reflexivity | now left].
Qed.

(** The same with collaborators that succeed: the header is printed, then
    the first comparison raises. *)
Lemma compare_pair_mismatch_exact
      geev lg n1 n2 m1 m2 (A1 A2 : rmatrix) (G1 G2 : matrix) name :
  solver_total geev ->
  is_shape n1 n1 A1 -> nonnegative A1 ->
  is_shape n2 n2 A2 -> nonnegative A2 ->
  lg (lift A1) = Ok G1 -> is_shape m1 m1 G1 -> all_finite G1 = true ->
  lg (lift A2) = Ok G2 -> is_shape m2 m2 G2 -> all_finite G2 = true ->
  n1 <> n2 -> n1 <> 1%nat -> n2 <> 1%nat ->
  compare_pair geev lg (lift A1) (lift A2) name =
  ([header_line name], Raise ValueError).
Proof.
  intros Hg HA1 P1 HA2 P2 E1 HG1 F1 E2 HG2 F2 Hne H1 H2.
  destruct (specs_ok lg Hg HA1 P1 HA2 P2 E1 HG1 F1 E2 HG2 F2)
    as ([a1 a2] & pl & pn & pq & pg & Hsp & [La1 La2] & _).
  cbn [fst snd] in La1, La2.
  unfold compare_pair, to_adj. rewrite Hsp.
  rewrite report_mismatch by (rewrite ?La1, ?La2; assumption).
  reflexivity.
Qed.


Lemma triangular_geev_total : solver_total triangular_geev.
Proof.
  intros k M [Hlen _] _. eexists. split; [reflexivity|].
  now rewrite length_map, length_seq.
Qed.

Lemma triangular_geev_sized : solver_sized triangular_geev.
Proof.
  intros M w [= <-]. now rewrite length_map, length_seq.
Qed.

Lemma within_tol_zero : within_tol 0 0 = true.
Proof.
  apply within_tol_spec. unfold close_enough, atol, rtol.
  rewrite Rminus_diag, Rabs_R0. lra.
Qed.



(** C1 (as the code has it).  [np.allclose] has no length check of its
    own.  On spectra of different lengths it raises [ValueError], unless
    one of them has exactly one element: that element is then compared
    with every element of the other spectrum, and the result is whatever
    the tolerance test gives.  At the top level, two adjacency matrices of
    different orders (neither of order 1) make [compare_pair] end with an
    exception, and no verdict is printed. *)
Theorem allclose_length_mismatch :
  (forall s1 s2 : spectrum,
      length s1 <> length s2 -> length s1 <> 1%nat -> length s2 <> 1%nat ->
      allclose s1 s2 = Raise ValueError) /\
  (forall (a : R) (s2 : spectrum),
      allclose [a] s2 = Ok (forallb (fun b => within_tol a b) s2)) /\
  (forall (s1 : spectrum) (b : R),
      allclose s1 [b] = Ok (forallb (fun a => within_tol a b) s1)) /\
  (forall geev lg (A1 A2 : matrix) (name : string),
      solver_sized geev ->
      nrows A1 <> nrows A2 -> nrows A1 <> 1%nat -> nrows A2 <> 1%nat ->
      exists e,
        snd (compare_pair geev lg A1 A2 name) = Raise e /\
        (fst (compare_pair geev lg A1 A2 name) = [] \/
         fst (compare_pair geev lg A1 A2 name) = [header_line name])).
Proof.
  split; [exact allclose_mismatch|].
  split; [exact allclose_single_left|].
  split; [exact allclose_single_right|].
  intros geev lg A1 A2 name. apply compare_pair_mismatch.
Qed.

Lemma allclose_length_mismatch_witness :
  allclose [1; 2] [1; 2; 3] = Raise ValueError /\
  exists e,
    snd (compare_pair triangular_geev edgeless_line_graph
                      (lift (zeros 2)) (lift (zeros 3)) "zeros") = Raise e.
Proof.
  destruct allclose_length_mismatch as (Hraise & _ & _ & Htop). split.
  - apply Hraise; cbn; lia.
  - destruct (Htop triangular_geev edgeless_line_graph
                   (lift (zeros 2)) (lift (zeros 3)) "zeros"%string
                   triangular_geev_sized) as (e & He & _);
      [cbn; lia | cbn; lia | cbn; lia |].
    exists e. exact He.
Defined.

(** Spectra of lengths 2 and 3 make [np.allclose] raise; a spectrum of
    length 1 against one of length 3 is reported close; and the zero
    matrices of orders 2 and 3 end [compare_pair] with [ValueError] right
    after the header. *)
Lemma allclose_mismatch_counterexample :
  allclose [0; 0] [0; 0; 0] = Raise ValueError /\
  allclose [0] [0; 0; 0] = Ok true /\
  compare_pair triangular_geev edgeless_line_graph
               (lift (zeros 2)) (lift (zeros 3)) "zeros" =
  ([header_line "zeros"], Raise ValueError).
Proof.
  split; [reflexivity|]. split.
  - rewrite allclose_single_left. cbn. now rewrite within_tol_zero.
  - apply (@compare_pair_mismatch_exact
             triangular_geev edgeless_line_graph 2 3 0 0
             (zeros 2) (zeros 3) [] []).
    + exact triangular_geev_total.
    + split; [reflexivity | repeat constructor].
    + unfold nonnegative, zeros. cbn. repeat constructor; lra.
    + split; [reflexivity | repeat constructor].
    + unfold nonnegative, zeros. cbn. repeat constructor; lra.
    + reflexivity.
    + split; [reflexivity | constructor].
    + reflexivity.
    + reflexivity.
    + split; [reflexivity | constructor].
    + reflexivity.
    + lia.
    + lia.
    + lia.
Qed.




(* ================================================================== *)
(** * Further properties: the canonical order of a spectrum *)


Lemma sorted_perm_eq (l1 l2 : list R) :
  StronglySorted Rle l1 -> StronglySorted Rle l2 -> Permutation l1 l2 ->
  l1 = l2.
Proof.
  intros H1. revert l2. induction H1 as [|a l1 Hs1 IH Ha]; intros l2 H2 HP.
  - apply Permutation_nil in HP. now subst.
  - destruct l2 as [|b l2].
    + apply Permutation_sym, Permutation_nil in HP. discriminate.
    + inversion H2 as [|? ? Hs2 Hb]; subst.
      assert (Hab : a = b).
      { assert (Hin1 : In a (b :: l2))
          by (apply (Permutation_in _ HP); now left).
        assert (Hin2 : In b (a :: l1))
          by (apply (Permutation_in _ (Permutation_sym HP)); now left).
        rewrite Forall_forall in Ha, Hb.
        destruct Hin1 as [->|Hin1]; [reflexivity|].
        destruct Hin2 as [->|Hin2]; [reflexivity|].
        apply Rle_antisym; [now apply Ha | now apply Hb]. }
      subst b. f_equal. apply IH; [exact Hs2|].
      now apply Permutation_cons_inv with a.
Qed.

Lemma np_sort_canonical (l1 l2 : list R) :
  Permutation l1 l2 -> np_sort l1 = np_sort l2.
Proof.
  intros HP. apply sorted_perm_eq; try apply np_sort_sorted.
  apply perm_trans with l1; [apply np_sort_perm|].
  apply perm_trans with l2; [exact HP|].
  apply Permutation_sym, np_sort_perm.
Qed.

(** X1.  The spectrum does not depend on the order in which the solver
    lists the eigenvalues: two solvers whose eigenvalues for a finite
    square array have the same real parts up to order give the same
    [sorted_eigvals]. *)
Theorem sorted_eigvals_order_independent
        (geev1 geev2 : matrix -> result (list complex))
        (n : nat) (M : matrix) (w1 w2 : list complex) :
  is_shape n n M -> all_finite M = true ->
  geev1 M = Ok w1 -> geev2 M = Ok w2 ->
  Permutation (map re w1) (map re w2) ->
  sorted_eigvals geev1 M = sorted_eigvals geev2 M.
Proof.
  intros HM Hfin H1 H2 HP.
  rewrite (sorted_eigvals_accepts geev1 HM Hfin H1).
  rewrite (sorted_eigvals_accepts geev2 HM Hfin H2).
  f_equal. now apply np_sort_canonical.
Qed.

Lemma sorted_eigvals_order_independent_witness :
  sorted_eigvals triangular_geev (lift upper2)
  = sorted_eigvals reversed_geev (lift upper2).
Proof.
  apply (@sorted_eigvals_order_independent
           triangular_geev reversed_geev 2 (lift upper2)
           [Complex 2 0; Complex (-1) 0] [Complex (-1) 0; Complex 2 0]).
  - split; [reflexivity | repeat constructor].
  - reflexivity.
  - reflexivity.
  - reflexivity.
  - apply perm_swap.
Defined.

(* ================================================================== *)
(** * Further properties: the report *)






Lemma allclose_raises_ValueError (s1 s2 : spectrum) e :
  allclose s1 s2 = Raise e -> e = ValueError.
Proof.
  unfold allclose, isclose.
  destruct (broadcast_dim (length s1) (length s2)); cbn [bind].
  - discriminate.
  - now intros [= <-].
Qed.

Lemma specs_keys geev lg (A1 A2 : matrix) sp :
  specs geev lg A1 A2 = Ok sp ->
  map fst sp = map mat_name all_representations.
Proof.
  unfold specs. intros H.
  repeat match type of H with
         | bind ?c _ = Ok _ => destruct c; [cbn [bind] in H | discriminate H]
         end.
  injection H as <-. reflexivity.
Qed.

Lemma report_shape (sp : list (string * (spectrum * spectrum))) :
  exists verdicts : list bool,
    fst (report sp) =
    map (fun kb => verdict_line (fst kb) (snd kb))
        (combine (map fst sp) verdicts) /\
    match snd (report sp) with
    | Ok _ => length verdicts = length sp
    | Raise e => e = ValueError /\ (length verdicts < length sp)%nat
    end.
Proof.
  induction sp as [|[key [s1 s2]] rest IH].
  - exists []. split; reflexivity.
  - cbn [report]. destruct (allclose s1 s2) as [b|e] eqn:E.
    + destruct IH as (verdicts & Hout & Hend).
      exists (b :: verdicts). destruct (report rest) as [out r].
      cbn [fst snd] in *. split.
      * cbn. now rewrite Hout.
      * destruct r as [u|e]; cbn [length]; [now rewrite Hend|].
        destruct Hend as [-> Hlt]. split; [reflexivity | lia].
    + exists []. cbn. split; [reflexivity|]. split.
      * exact (allclose_raises_ValueError _ _ E).
      * lia.
Qed.

Lemma verdict_lines_of_keys (reps : list representation) (verdicts : list bool) :
  map (fun kb => verdict_line (fst kb) (snd kb))
      (combine (map mat_name reps) verdicts) =
  map (fun rb => verdict_line (mat_name (fst rb)) (snd rb))
      (combine reps verdicts).
Proof.
  revert verdicts. induction reps as [|r reps IH]; intros [|b verdicts];
    cbn; try reflexivity.
  now rewrite IH.
Qed.

(** X3.  Whatever the collaborators do, the output of [compare_pair] is
    either empty or the header followed by the verdicts of the first
    representations, in the fixed order.  It has all five verdicts exactly
    when the run ends normally.  When the run raises after the header was
    printed, fewer than five verdicts were printed and the exception is
    the [ValueError] of [np.allclose]; any other exception leaves the
    output empty. *)
Theorem compare_pair_output_prefix
        (geev : matrix -> result (list complex))
        (lg : matrix -> result matrix)
        (A1 A2 : matrix) (name : string) :
  exists verdicts : list bool,
    match snd (compare_pair geev lg A1 A2 name) with
    | Ok _ =>
        length verdicts = 5%nat /\
        fst (compare_pair geev lg A1 A2 name) =
        header_line name :: report_lines verdicts
    | Raise e =>
        fst (compare_pair geev lg A1 A2 name) = [] \/
        (e = ValueError /\ (length verdicts < 5)%nat /\
         fst (compare_pair geev lg A1 A2 name) =
         header_line name :: report_lines verdicts)
    end.
Proof.
  unfold compare_pair, to_adj.
  destruct (specs geev lg A1 A2) as [sp|e] eqn:E.
  - pose proof (specs_keys _ _ _ _ E) as Hkeys.
    destruct (report_shape sp) as (verdicts & Hout & Hend).
    assert (Hlen : length sp = 5%nat).
    { rewrite <- (length_map fst sp), Hkeys. reflexivity. }
    rewrite Hkeys, verdict_lines_of_keys in Hout.
    exists verdicts. destruct (report sp) as [out r].
    cbn [fst snd] in *. subst out. rewrite Hlen in Hend.
    destruct r as [u|e].
    + split; [exact Hend | reflexivity].
    + right. destruct Hend as [-> Hlt]. repeat split. exact Hlt.
  - exists []. cbn. now left.
Qed.

(** X4.  [compare_pair] fails closed on an input that is not square: it
    raises before anything is printed, and when it is the first argument
    that is not square the exception is the [LinAlgError] of
    [np.linalg.eigvals]. *)
Theorem compare_pair_nonsquare_input
        (geev : matrix -> result (list complex))
        (lg : matrix -> result matrix)
        (A1 A2 : matrix) (name : string) :
  nrows A1 <> ncols A1 \/ nrows A2 <> ncols A2 ->
  exists e,
    compare_pair geev lg A1 A2 name = ([], Raise e) /\
    (nrows A1 <> ncols A1 -> e = LinAlgError).
Proof.
  intros H. unfold compare_pair, to_adj, specs, sorted_eigvals at 1, to_adj.
  destruct (Nat.eq_dec (nrows A1) (ncols A1)) as [Hsq|Hne].
  - destruct H as [H|H]; [contradiction|].
    destruct (np_linalg_eigvals geev A1) as [w|e]; cbn [bind].
    + unfold sorted_eigvals at 1, to_adj.
      rewrite (np_linalg_eigvals_not_square geev A2 H). cbn [bind].
      exists LinAlgError. split; [reflexivity | contradiction].
    + exists e. split; [reflexivity | contradiction].
  - rewrite (np_linalg_eigvals_not_square geev A1 Hne). cbn [bind].
    exists LinAlgError. split; reflexivity.
Qed.

Lemma compare_pair_nonsquare_input_witness :
  exists e,
    compare_pair triangular_geev edgeless_line_graph
                 array_2x3 (lift K2) "bad" = ([], Raise e) /\
    (nrows array_2x3 <> ncols array_2x3 -> e = LinAlgError).
Proof.
  apply (@compare_pair_nonsquare_input
           triangular_geev edgeless_line_graph array_2x3 (lift K2)).
  left. cbn. lia.
Defined.

(* ================================================================== *)
(** * Further properties: the derived matrices *)

Lemma rmatrix_as_rbuild m n (A : rmatrix) :
  is_shape m n A -> A = rbuild m n (ritem A).
Proof.
  intros HA. pose proof HA as [Hlen _].
  apply nth_ext with (d := []) (d' := []).
  - unfold rbuild. now rewrite length_map, length_seq.
  - intros i Hi.
    assert (Hi' : (i < m)%nat) by (rewrite <- Hlen; exact Hi).
    unfold rbuild. rewrite nth_map_seq by exact Hi'.
    assert (Hrow : length (nth i A []) = n) by exact (is_shape_row HA Hi').
    apply nth_ext with (d := 0) (d' := 0).
    + now rewrite length_map, length_seq.
    + intros j Hj. rewrite nth_map_seq by lia. reflexivity.
Qed.

Lemma rbuild_ext m n f g :
  (forall i j, (i < m)%nat -> (j < n)%nat -> f i j = g i j) ->
  rbuild m n f = rbuild m n g.
Proof.
  intros H. unfold rbuild. apply map_seq_ext. intros i Hi.
  apply map_seq_ext. intros j Hj. now apply H.
Qed.




Lemma laplacian_lift_rbuild n (A : rmatrix) :
  is_shape n n A ->
  laplacian (lift A) = Ok (lift (rbuild n n (rlaplacian A))).
Proof. intros HA. rewrite lift_rbuild. exact (laplacian_lift HA). Qed.

Lemma signless_laplacian_lift_rbuild n (A : rmatrix) :
  is_shape n n A ->
  signless_laplacian (lift A) = Ok (lift (rbuild n n (rsignless A))).
Proof. intros HA. rewrite lift_rbuild. exact (signless_laplacian_lift HA). Qed.














(* ================================================================== *)
(** * Further properties: relabelling the vertices *)














(* ================================================================== *)
(** * Further properties: entries of the normalized Laplacian *)





(* ================================================================== *)
(** * Further properties: a negative row sum *)









(* ================================================================== *)
(** * Further properties: edge weights scaled by a constant *)












(* ================================================================== *)
(** * Further properties: graphs with different numbers of edges *)





(* ================================================================== *)
(** * Further properties: graphs without edges *)

Lemma ritem_zeros n i j : ritem (zeros n) i j = 0.
Proof.
  unfold ritem, zeros.
  destruct (Nat.lt_ge_cases i n) as [Hi|Hi].
  - rewrite (nth_indep _ [] (repeat 0 n)) by (now rewrite repeat_length).
    rewrite nth_repeat. apply nth_repeat.
  - rewrite (nth_overflow (repeat (repeat 0 n) n) [])
      by (now rewrite repeat_length).
    now destruct j.
Qed.

Lemma is_shape_zeros n : is_shape n n (zeros n).
Proof.
  unfold zeros. split; [apply repeat_length|].
  apply Forall_forall. intros r Hr. apply repeat_spec in Hr. subst r.
  apply repeat_length.
Qed.

Lemma degree_zeros n i : degree (zeros n) i = 0.
Proof.
  destruct (Nat.lt_ge_cases i n) as [Hi|Hi].
  - rewrite (degree_as_sum (is_shape_zeros n) Hi).
    rewrite (rsum_map_ext (ritem (zeros n) i) (fun k => 0 * INR k));
      [|intros; rewrite ritem_zeros; lra].
    rewrite rsum_map_scale. lra.
  - unfold degree, zeros.
    rewrite nth_overflow by (now rewrite repeat_length). reflexivity.
Qed.

Lemma nonnegative_zeros n : nonnegative (zeros n).
Proof.
  unfold nonnegative, zeros. apply Forall_forall. intros r Hr.
  apply repeat_spec in Hr. subst r.
  apply Forall_forall. intros x Hx. apply repeat_spec in Hx. lra.
Qed.

Lemma zeros_as_rbuild n f :
  (forall i j, (i < n)%nat -> (j < n)%nat -> f i j = 0) ->
  rbuild n n f = zeros n.
Proof.
  intros H. rewrite (rmatrix_as_rbuild (is_shape_zeros n)).
  apply rbuild_ext. intros i j Hi Hj. rewrite ritem_zeros. now apply H.
Qed.

(** X14.  A graph without edges, of any order including the empty graph:
    its Laplacian, signless Laplacian and normalized Laplacian are again
    the zero matrix.  The degree-zero divisions leave no [inf] or [nan]
    behind and no exception is raised. *)
Theorem edgeless_graph_derivations (n : nat) :
  laplacian (lift (zeros n)) = Ok (lift (zeros n)) /\
  signless_laplacian (lift (zeros n)) = Ok (lift (zeros n)) /\
  normalized_laplacian (lift (zeros n)) = Ok (lift (zeros n)).
Proof.
  pose proof (is_shape_zeros n) as HZ.
  split; [|split].
  - rewrite (laplacian_lift_rbuild HZ). do 2 f_equal.
    apply zeros_as_rbuild. intros i j _ _.
    unfold rlaplacian, diag_entry. rewrite ritem_zeros, degree_zeros.
    destruct (i =? j)%nat; lra.
  - rewrite (signless_laplacian_lift_rbuild HZ). do 2 f_equal.
    apply zeros_as_rbuild. intros i j _ _.
    unfold rsignless, diag_entry. rewrite ritem_zeros, degree_zeros.
    destruct (i =? j)%nat; lra.
  - rewrite (normalized_laplacian_lift HZ (nonnegative_zeros n)).
    do 2 f_equal. apply zeros_as_rbuild. intros i j _ _.
    rewrite (scale_isolated (zeros n) i (degree_zeros n i)). lra.
Qed.
